(** * obs_base: [ExposureIdInfo] and [bboxFromIraf]

    A shallow embedding of
    - python/lsst/obs/base/exposureIdInfo.py (class [ExposureIdInfo]) and
    - python/lsst/obs/base/utils.py (function [bboxFromIraf]).

    Python integers are unbounded, so they are [Z].  A Python string is the
    list of its code points.  A Python object is the finite map of its
    attributes.  A method runs in a small state-and-error monad over the
    attributes of [self]: a [raise] keeps the attributes that were already
    assigned, as in Python. *)

From Stdlib Require Import ZArith NArith Lia Ascii String List.
From stdpp Require Import base option list strings gmap pretty.

Local Open Scope Z_scope.

(** ** Python strings *)

(** A string is the list of its code points. *)
Abbreviation pystr := (list N).

(** The code point of a character below 256. *)
Definition chr (a : ascii) : N := N_of_ascii a.
Arguments chr : simpl never.

(** The Python string of a string literal of this file. *)
Fixpoint ustr (s : string) : pystr :=
  match s with
  | String a r => chr a :: ustr r
  | EmptyString => []
  end.

(** The Unicode character database, as far as this code meets it: the
    decimal value of a code point ([unicodedata.decimal]).  The table itself
    belongs to the interpreter: it is a parameter of the model, which
    consults it only for code points from 128 on that are not white space
    (see [decimal_of]). *)
Class UnicodeData := unicode_decimal : N → option Z.

(** ** Python values, exceptions and results *)

(** The values that reach the code of this development: [None], integers
    and strings. *)
Inductive pyval : Type :=
  | PyNone
  | PyInt (z : Z)
  | PyStr (s : pystr).

(** [RuntimeError] carries its formatted message, [ValueError] the literal
    that [int()] rejected, [TypeError] the name of the operation, and
    [AttributeError] the name of the missing attribute. *)
Inductive exn : Type :=
  | RuntimeError (msg : pystr)
  | ValueError (lit : pystr)
  | TypeError (op : string)
  | AttributeError (name : string).

Inductive result (A : Type) : Type :=
  | Ok (a : A)
  | Raise (e : exn).
Arguments Ok {A} a.
Arguments Raise {A} e.

Definition is_RuntimeError {A} (r : result A) : Prop :=
  ∃ msg, r = Raise (RuntimeError msg).

Definition is_error {A} (r : result A) : Prop :=
  ∃ e, r = Raise e.

Definition result_bind {A B} (r : result A) (k : A → result B) : result B :=
  match r with
  | Ok a => k a
  | Raise e => Raise e
  end.

#[global] Instance result_ret : MRet result := @Ok.
#[global] Instance result_mbind : MBind result :=
  λ A B k r, result_bind r k.

(** ** [int.bit_length] *)

(** [x.bit_length()]: the number of bits of the absolute value of [x], and
    0 for 0. *)
Definition bit_length (x : Z) : Z :=
  match x with
  | Z0 => 0
  | Zpos p | Zneg p => Z.pos (Pos.size p)
  end.

(** ** [int(...)] *)

(** The white space that [int()] drops around a literal: tab to carriage
    return, the space, and the white space of Unicode from 128 on (U+0085,
    U+00A0, U+1680, U+2000 to U+200A, U+2028, U+2029, U+202F, U+205F,
    U+3000).  The separators U+001C to U+001F are not dropped. *)
Definition is_space (c : N) : bool :=
  ((9 <=? c) && (c <=? 13) || (c =? 32) || (c =? 0x85) || (c =? 0xA0)
   || (c =? 0x1680) || (0x2000 <=? c) && (c <=? 0x200A)
   || (c =? 0x2028) || (c =? 0x2029) || (c =? 0x202F) || (c =? 0x205F)
   || (c =? 0x3000))%N.

Section Builtins.

Context {db : UnicodeData}.

(** The decimal value of a character, for [int()] and for [\d] alike.
    Below 128 the decimal digits are [0] to [9]; white space has no decimal
    value; for the other code points the Unicode table decides. *)
Definition decimal_of (c : N) : option Z :=
  if (c <? 128)%N then
    if ((48 <=? c) && (c <=? 57))%N then Some (Z.of_N c - 48) else None
  else if is_space c then None
  else unicode_decimal c.

Definition is_digit (c : N) : bool :=
  match decimal_of c with
  | Some _ => true
  | None => false
  end.

Definition digit_value (c : N) : Z := default 0 (decimal_of c).

Fixpoint lstrip (s : pystr) : pystr :=
  match s with
  | c :: r => if is_space c then lstrip r else s
  | [] => []
  end.

Fixpoint rstrip (s : pystr) : pystr :=
  match s with
  | c :: r =>
      match rstrip r with
      | [] => if is_space c then [] else [c]
      | r' => c :: r'
      end
  | [] => []
  end.

Definition strip (s : pystr) : pystr := rstrip (lstrip s).

(** The digits of a decimal literal, most significant first; a single
    underscore may stand between two digits.  [after_digit] tells whether
    the previous character was a digit. *)
Fixpoint digits_value (acc : Z) (after_digit : bool) (s : pystr) : option Z :=
  match s with
  | [] => if after_digit then Some acc else None
  | c :: r =>
      if is_digit c then digits_value (10 * acc + digit_value c) true r
      else if ((c =? chr "_")%N && after_digit)%bool then
        match r with
        | d :: _ => if is_digit d then digits_value acc false r else None
        | [] => None
        end
      else None
  end.

(** [int(s)] for a string [s], in base 10: white space around the literal
    is dropped, a sign may come first, and the digits follow.  The number of
    digits has no limit. *)
Definition int_of_str (s : pystr) : result Z :=
  let body :=
    match strip s with
    | c :: r =>
        if (c =? chr "-")%N then option_map Z.opp (digits_value 0 false r)
        else if (c =? chr "+")%N then digits_value 0 false r
        else digits_value 0 false (c :: r)
    | [] => None
    end in
  match body with
  | Some z => Ok z
  | None => Raise (ValueError s)
  end.

Definition py_int (v : pyval) : result Z :=
  match v with
  | PyInt z => Ok z
  | PyStr s => int_of_str s
  | PyNone => Raise (TypeError "int")
  end.

End Builtins.

(** [a - b] *)
Definition py_sub (a b : pyval) : result pyval :=
  match a, b with
  | PyInt x, PyInt y => Ok (PyInt (x - y))
  | _, _ => Raise (TypeError "-")
  end.

(** ** Objects and methods *)

(** An object is the map of its attributes. *)
Abbreviation obj := (gmap string pyval).

(** A method body: it reads and writes the attributes of [self] and returns
    a value or raises. *)
Definition M (A : Type) : Type := obj → result A * obj.

Definition ret {A} (a : A) : M A := λ self, (Ok a, self).

Definition bind {A B} (m : M A) (k : A → M B) : M B :=
  λ self,
    match m self with
    | (Ok a, self') => k a self'
    | (Raise e, self') => (Raise e, self')
    end.

Definition raise {A} (e : exn) : M A := λ self, (Raise e, self).

Definition lift {A} (r : result A) : M A := λ self, (r, self).

(** [self.name] *)
Definition getattr (name : string) : M pyval :=
  λ self,
    match self !! name with
    | Some v => (Ok v, self)
    | None => (Raise (AttributeError name), self)
    end.

(** [self.name = v] *)
Definition setattr (name : string) (v : pyval) : M unit :=
  λ self, (Ok tt, <[name := v]> self).

Declare Scope py_scope.
Delimit Scope py_scope with py.
Notation "x <- m ;; k" := (bind m (λ x, k))
  (at level 100, m at next level, k at level 200, right associativity)
  : py_scope.
Notation "m ;; k" := (bind m (λ _, k))
  (at level 100, k at level 200, right associativity) : py_scope.

(** ** exposureIdInfo.py *)

Module ExposureIdInfo.

Section WithIdFactory.

Context {db : UnicodeData}.

(** [lsst.afw.table.IdFactory.computeReservedFromMaxBits] is a function of
    another package: it is a parameter of the model. *)
Variable computeReservedFromMaxBits : pyval → result pyval.

Definition expId_too_wide (expId expBits : Z) : pystr :=
  ustr ("expId=" +:+ pretty expId +:+ " uses " +:+ pretty (bit_length expId)
        +:+ " bits > expBits=" +:+ pretty expBits).

Definition expBits_too_wide (expBits maxBits : Z) : pystr :=
  ustr ("expBits=" +:+ pretty expBits +:+ " > maxBits=" +:+ pretty maxBits).

Definition __init__ (expId expBits maxBits : pyval) : M unit :=
  (expId <- lift (py_int expId) ;;
   expBits <- lift (py_int expBits) ;;
   if (bit_length expId >? expBits)%Z then
     raise (RuntimeError (expId_too_wide expId expBits))
   else
     setattr "expId" (PyInt expId) ;;
     setattr "expBits" (PyInt expBits) ;;
     maxBits <- match maxBits with
                | PyNone => ret PyNone
                | _ =>
                    maxBits <- lift (py_int maxBits) ;;
                    if (maxBits <? expBits)%Z then
                      raise (RuntimeError (expBits_too_wide expBits maxBits))
                    else ret (PyInt maxBits)
                end ;;
     setattr "maxBits" maxBits)%py.

(** The property [unusedBits]. *)
Definition unusedBits : M pyval :=
  (maxBits <- getattr "maxBits" ;;
   match maxBits with
   | PyNone =>
       expBits <- getattr "expBits" ;;
       lift (computeReservedFromMaxBits expBits)
   | _ =>
       maxBits <- getattr "maxBits" ;;
       expBits <- getattr "expBits" ;;
       lift (py_sub maxBits expBits)
   end)%py.

(** The defaults of the parameters of [__init__]. *)
Definition default_expId : pyval := PyInt 0.
Definition default_expBits : pyval := PyInt 1.
Definition default_maxBits : pyval := PyNone.

(** The call [ExposureIdInfo(...)]; an argument that is left out is [None]
    here.  [__init__] runs on a new object, which the caller gets when
    [__init__] returns, and never sees when it raises. *)
Definition new (expId expBits maxBits : option pyval) : result obj :=
  match __init__ (default default_expId expId)
                 (default default_expBits expBits)
                 (default default_maxBits maxBits) ∅ with
  | (Ok _, self) => Ok self
  | (Raise e, _) => Raise e
  end.

End WithIdFactory.

(** The attributes of an instance with the given fields. *)
Definition instance (expId expBits : Z) (maxBits : pyval) : obj :=
  <["maxBits" := maxBits]>
    (<["expBits" := PyInt expBits]> (<["expId" := PyInt expId]> ∅)).

(** The invariant of an instance that has [maxBits]: [expBits] and [maxBits]
    are integers, and [maxBits] is at least [expBits]. *)
Definition budget_ok (o : obj) : Prop :=
  ∃ b m,
    o !! "expBits" = Some (PyInt b) ∧ o !! "maxBits" = Some (PyInt m) ∧
    b <= m.

(** A stand-in for the function of the other package, for the examples. *)
Definition sample_reserved (v : pyval) : result pyval :=
  py_sub (PyInt 63) v.

End ExposureIdInfo.

(** ** utils.py *)

(** [lsst.afw.geom.PointI] and [lsst.afw.geom.BoxI] are classes of another
    package.  The model keeps the arguments their constructors are called
    with. *)
Inductive Point2I : Type := PointI (x y : Z).
Inductive Box2I : Type := BoxI (p q : Point2I).

Definition newline : pystr := [chr "010"].

Definition dquote : pystr := [chr "034"].

Section Utils.

Context {db : UnicodeData}.

(** The character class [[-\d]] of the pattern: [\d] is every Unicode
    decimal digit. *)
Definition in_class (c : N) : bool := (c =? chr "-")%N || is_digit c.

(** The longest prefix of [s] in the class, and what follows it. *)
Fixpoint span_class (s : pystr) : pystr * pystr :=
  match s with
  | c :: r =>
      if in_class c then
        let (g, t) := span_class r in (c :: g, t)
      else ([], s)
  | [] => ([], [])
  end.

(** [([-\d]+)] followed by the character [sep], which is outside the class:
    the group is the longest run of class characters, and it is not empty. *)
Definition group_then (sep : N) (s : pystr) : option (pystr * pystr) :=
  match span_class s with
  | (c :: g, d :: t) => if (d =? sep)%N then Some (c :: g, t) else None
  | _ => None
  end.

(** [$] without [re.MULTILINE]: the end of the string, or the place before
    a newline that ends the string. *)
Definition at_dollar (s : pystr) : bool :=
  match s with
  | [] => true
  | [c] => (c =? chr "010")%N
  | _ => false
  end.

(** [re.search(r"^\[([-\d]+):([-\d]+),([-\d]+):([-\d]+)\]$", s)]: the four
    groups of the match, or [None].  [^] anchors the search at the start of
    the string. *)
Definition iraf_search (s : pystr) : option (pystr * pystr * pystr * pystr) :=
  match s with
  | c :: s1 =>
      if (c =? chr "[")%N then
        '(x0, s2) ← group_then (chr ":") s1;
        '(x1, s3) ← group_then (chr ",") s2;
        '(y0, s4) ← group_then (chr ":") s3;
        '(y1, s5) ← group_then (chr "]") s4;
        if at_dollar s5 then Some (x0, x1, y0, y1) else None
      else None
  | [] => None
  end.

Definition unable_to_parse (irafBBoxStr : pystr) : pystr :=
  ustr "Unable to parse IRAF-style bbox " ++ dquote ++ irafBBoxStr ++ dquote.

Definition bboxFromIraf (irafBBoxStr : pystr) : result Box2I :=
  match iraf_search irafBBoxStr with
  | None => Raise (RuntimeError (unable_to_parse irafBBoxStr))
  | Some (g0, g1, g2, g3) =>
      x0 ← int_of_str g0;
      x1 ← int_of_str g1;
      y0 ← int_of_str g2;
      y1 ← int_of_str g3;
      Ok (BoxI (PointI (x0 - 1) (y0 - 1)) (PointI (x1 - 1) (y1 - 1)))
  end.

(** *** The strings the pattern and [int()] accept, stated on their own *)

(** A group of the pattern: one or more characters of the class. *)
Definition is_group (g : pystr) : Prop :=
  g ≠ [] ∧ forallb in_class g = true.

(** ["[x0:x1,y0:y1]"] followed by [tl]. *)
Definition iraf_str (x0 x1 y0 y1 tl : pystr) : pystr :=
  ustr "[" ++ x0 ++ ustr ":" ++ x1 ++ ustr "," ++ y0 ++ ustr ":" ++ y1
  ++ ustr "]" ++ tl.

(** The strings that the pattern matches, with their groups. *)
Inductive iraf_re : pystr → pystr * pystr * pystr * pystr → Prop :=
  | iraf_re_intro x0 x1 y0 y1 tl :
      is_group x0 → is_group x1 → is_group y0 → is_group y1 →
      tl = [] ∨ tl = newline →
      iraf_re (iraf_str x0 x1 y0 y1 tl) (x0, x1, y0, y1).

(** The value of a run of decimal digits. *)
Fixpoint decimal_value (acc : Z) (ds : pystr) : Z :=
  match ds with
  | d :: r => decimal_value (10 * acc + digit_value d) r
  | [] => acc
  end.

(** An integer literal made of digits and ['-']: one or more decimal
    digits, with or without a minus sign before them. *)
Inductive int_literal : pystr → Z → Prop :=
  | int_literal_digits ds :
      ds ≠ [] → forallb is_digit ds = true →
      int_literal ds (decimal_value 0 ds)
  | int_literal_minus ds :
      ds ≠ [] → forallb is_digit ds = true →
      int_literal (chr "-" :: ds) (- decimal_value 0 ds).

(** A string exactly of the form ["[x0:x1,y0:y1]"] with four integer
    literals. *)
Definition iraf_form (s : pystr) : Prop :=
  ∃ g0 g1 g2 g3 x0 x1 y0 y1,
    int_literal g0 x0 ∧ int_literal g1 x1 ∧
    int_literal g2 y0 ∧ int_literal g3 y1 ∧
    s = iraf_str g0 g1 g2 g3 [].

(** The same, or that followed by one newline. *)
Definition iraf_form_nl (s : pystr) : Prop :=
  ∃ g0 g1 g2 g3 x0 x1 y0 y1 tl,
    int_literal g0 x0 ∧ int_literal g1 x1 ∧
    int_literal g2 y0 ∧ int_literal g3 y1 ∧
    (tl = [] ∨ tl = newline) ∧
    s = iraf_str g0 g1 g2 g3 tl.

End Utils.

(** A part of the Unicode table, for the examples: the Arabic-Indic digits
    U+0660 to U+0669. *)
Definition sample_unicode : UnicodeData :=
  λ c, if ((0x660 <=? c) && (c <=? 0x669))%N then Some (Z.of_N c - 0x660)
       else None.

(** ["[١:2,3:4]"], with the Arabic-Indic digit one. *)
Definition arabic_indic_example : pystr :=
  ustr "[" ++ [0x661%N] ++ ustr ":2,3:4]".

(** ** Examples *)

Section Examples.

#[local] Existing Instance sample_unicode.

Example bit_length_5 :
  bit_length 5 = 3.
Proof. reflexivity. Qed.

Example bit_length_16 :
  bit_length 16 = 5.
Proof. reflexivity. Qed.

Example bit_length_m5 :
  bit_length (-5) = 3.
Proof. reflexivity. Qed.

Example int_of_str_1 :
  int_of_str (ustr " -1_000 ") = Ok (-1000).
Proof. reflexivity. Qed.

Example int_of_str_2 :
  int_of_str (ustr "1__0") = Raise (ValueError (ustr "1__0")).
Proof. reflexivity. Qed.

Example int_of_str_3 :
  int_of_str (ustr "1-2") = Raise (ValueError (ustr "1-2")).
Proof. reflexivity. Qed.

Example int_of_str_4 :
  int_of_str (chr "028" :: ustr "3") =
    Raise (ValueError (chr "028" :: ustr "3")).
Proof. reflexivity. Qed.

Example int_of_str_5 :
  int_of_str [0x2003; 0x661; 0x662; 0xA0]%N = Ok 12.
Proof. reflexivity. Qed.

Example bbox_1 :
  bboxFromIraf (ustr "[1:2,3:4]") = Ok (BoxI (PointI 0 2) (PointI 1 3)).
Proof. reflexivity. Qed.

Example bbox_2 :
  bboxFromIraf (ustr "[-1:20,3:400]") =
    Ok (BoxI (PointI (-2) 2) (PointI 19 399)).
Proof. reflexivity. Qed.

Example bbox_3 :
  bboxFromIraf (ustr "[1:2,3:4]" ++ newline) =
    Ok (BoxI (PointI 0 2) (PointI 1 3)).
Proof. reflexivity. Qed.

Example bbox_4 :
  bboxFromIraf (ustr " [1:2,3:4]") =
    Raise (RuntimeError (unable_to_parse (ustr " [1:2,3:4]"))).
Proof. reflexivity. Qed.

Example bbox_5 :
  bboxFromIraf (ustr "[1-2:3,4:5]") = Raise (ValueError (ustr "1-2")).
Proof. reflexivity. Qed.

Example bbox_6 :
  bboxFromIraf arabic_indic_example = Ok (BoxI (PointI 0 2) (PointI 1 3)).
Proof. reflexivity. Qed.

Example new_1 :
  ExposureIdInfo.new (Some (PyInt 5)) (Some (PyInt 4)) None =
    Ok (<["maxBits" := PyNone]>
          (<["expBits" := PyInt 4]> (<["expId" := PyInt 5]> ∅))).
Proof. reflexivity. Qed.

Example new_2 :
  ExposureIdInfo.new (Some (PyInt 16)) (Some (PyInt 4)) None =
    Raise (RuntimeError (ustr "expId=16 uses 5 bits > expBits=4")).
Proof. reflexivity. Qed.

Example new_3 :
  ExposureIdInfo.new (Some (PyInt 0)) (Some (PyInt 10)) (Some (PyInt 5)) =
    Raise (RuntimeError (ustr "expBits=10 > maxBits=5")).
Proof. reflexivity. Qed.

End Examples.

(** * Properties *)

(** ** [bit_length] *)

(** The definition of the Python documentation: [bit_length x] is the one
    [k] with [2^(k-1) <= |x| < 2^k], for [x] other than 0. *)
Lemma bit_length_spec (x : Z) :
  x ≠ 0 → 2 ^ (bit_length x - 1) <= Z.abs x < 2 ^ bit_length x.
Proof.
  assert (Hpos : ∀ p, 2 ^ (Z.pos (Pos.size p) - 1) <= Z.pos p
                      < 2 ^ Z.pos (Pos.size p)).
  { intros p.
    assert (Hlog : Z.pos (Pos.size p) = Z.log2 (Z.pos p) + 1).
    { destruct p; simpl; lia. }
    rewrite Hlog.
    replace (Z.log2 (Z.pos p) + 1 - 1) with (Z.log2 (Z.pos p)) by lia.
    replace (Z.log2 (Z.pos p) + 1) with (Z.succ (Z.log2 (Z.pos p))) by lia.
    apply Z.log2_spec. lia. }
  destruct x as [|p|p]; intros Hx; [done | apply Hpos | apply Hpos].
Qed.

Lemma bit_length_abs (x : Z) : bit_length (Z.abs x) = bit_length x.
Proof. by destruct x. Qed.

Lemma bit_length_nonneg (x : Z) : 0 <= bit_length x.
Proof. destruct x; simpl; lia. Qed.

(** ** exposureIdInfo.py *)

Module ExposureIdInfoFacts.
Import ExposureIdInfo.

Lemma instance_expId e b m : instance e b m !! "expId" = Some (PyInt e).
Proof. unfold instance. by simplify_map_eq. Qed.

Lemma instance_expBits e b m : instance e b m !! "expBits" = Some (PyInt b).
Proof. unfold instance. by simplify_map_eq. Qed.

Lemma instance_maxBits e b m : instance e b m !! "maxBits" = Some m.
Proof. unfold instance. by simplify_map_eq. Qed.

Lemma instance_dom e b m :
  dom (instance e b m) = ({["expId"; "expBits"; "maxBits"]} : gset string).
Proof. unfold instance. rewrite !dom_insert_L, dom_empty_L. set_solver. Qed.

Section WithIdFactory.

Context {db : UnicodeData}.

Variable computeReservedFromMaxBits : pyval → result pyval.

(** What [__init__] does on integers. *)
Lemma init_int (e b : Z) (maxBits : pyval) (self : obj) :
  __init__ (PyInt e) (PyInt b) maxBits self =
    if (bit_length e >? b)%Z then
      (Raise (RuntimeError (expId_too_wide e b)), self)
    else
      let self' := <["expBits" := PyInt b]> (<["expId" := PyInt e]> self) in
      match maxBits with
      | PyNone => (Ok tt, <["maxBits" := PyNone]> self')
      | _ =>
          match py_int maxBits with
          | Ok m =>
              if (m <? b)%Z then
                (Raise (RuntimeError (expBits_too_wide b m)), self')
              else (Ok tt, <["maxBits" := PyInt m]> self')
          | Raise x => (Raise x, self')
          end
      end.
Proof.
  unfold __init__, bind, lift, raise, setattr, ret. simpl.
  destruct (bit_length e >? b)%Z; [done|].
  destruct maxBits as [|m|s]; simpl; [done| |].
  - by destruct (m <? b)%Z.
  - destruct (int_of_str s) as [m|x]; [|done]. by destruct (m <? b)%Z.
Qed.

(** Every instance that the constructor returns has integer fields
    [expId] and [expBits], the first of which fits in the second, and
    [maxBits] is [None] or an integer that is at least [expBits]. *)
Lemma new_inv (expId expBits maxBits : option pyval) (o : obj) :
  new expId expBits maxBits = Ok o →
  ∃ e b,
    py_int (default default_expId expId) = Ok e ∧
    py_int (default default_expBits expBits) = Ok b ∧
    bit_length e <= b ∧
    ((default default_maxBits maxBits = PyNone ∧ o = instance e b PyNone) ∨
     (∃ m, default default_maxBits maxBits ≠ PyNone ∧
           py_int (default default_maxBits maxBits) = Ok m ∧
           b <= m ∧ o = instance e b (PyInt m))).
Proof.
  unfold new.
  generalize (default default_expId expId) as ve,
             (default default_expBits expBits) as vb,
             (default default_maxBits maxBits) as vm.
  intros ve vb vm.
  destruct (py_int ve) as [e|x] eqn:He;
    [|unfold __init__, bind, lift; rewrite He; discriminate].
  destruct (py_int vb) as [b|x] eqn:Hb;
    [|unfold __init__, bind, lift; rewrite He, Hb; discriminate].
  assert (Hinit : __init__ ve vb vm ∅ = __init__ (PyInt e) (PyInt b) vm ∅).
  { unfold __init__, bind, lift. by rewrite He, Hb. }
  rewrite Hinit, init_int.
  destruct (bit_length e >? b)%Z eqn:Hlen; [discriminate|].
  intros Ho. exists e, b. split_and!; [done|done|lia|].
  destruct vm as [|m|s].
  - left. simpl in Ho. split; [done|]. unfold instance. congruence.
  - right. simpl in Ho. destruct (m <? b)%Z eqn:Hm; [discriminate|].
    exists m. split_and!; [done|done|lia|unfold instance; congruence].
  - right. simpl in Ho. destruct (int_of_str s) as [m|x] eqn:Hs; [|discriminate].
    destruct (m <? b)%Z eqn:Hm; [discriminate|].
    exists m. split_and!; [done|done|lia|unfold instance; congruence].
Qed.

(** The constructor on integers, with [maxBits] left out. *)
Lemma new_int_omitted (e b : Z) :
  new (Some (PyInt e)) (Some (PyInt b)) None =
    if (bit_length e >? b)%Z then Raise (RuntimeError (expId_too_wide e b))
    else Ok (instance e b PyNone).
Proof.
  unfold new. simpl default. rewrite init_int.
  by destruct (bit_length e >? b)%Z.
Qed.

(** The constructor on integers, with an integer [maxBits]. *)
Lemma new_int_maxBits (e b m : Z) :
  new (Some (PyInt e)) (Some (PyInt b)) (Some (PyInt m)) =
    if (bit_length e >? b)%Z then Raise (RuntimeError (expId_too_wide e b))
    else if (m <? b)%Z then Raise (RuntimeError (expBits_too_wide b m))
    else Ok (instance e b (PyInt m)).
Proof.
  unfold new. simpl default. rewrite init_int.
  destruct (bit_length e >? b)%Z; [done|]. simpl.
  by destruct (m <? b)%Z.
Qed.

(** [unusedBits] on an instance without [maxBits]. *)
Lemma unusedBits_None (e b : Z) :
  unusedBits computeReservedFromMaxBits (instance e b PyNone) =
    (computeReservedFromMaxBits (PyInt b), instance e b PyNone).
Proof.
  unfold ExposureIdInfo.unusedBits, bind, getattr, lift.
  by rewrite instance_maxBits, instance_expBits.
Qed.

(** [unusedBits] on an instance with [maxBits]. *)
Lemma unusedBits_Some (e b m : Z) :
  unusedBits computeReservedFromMaxBits (instance e b (PyInt m)) =
    (Ok (PyInt (m - b)), instance e b (PyInt m)).
Proof.
  unfold ExposureIdInfo.unusedBits, bind, getattr, lift.
  by rewrite !instance_maxBits, instance_expBits.
Qed.

(** [unusedBits] on any object whose [expBits] and [maxBits] are
    integers. *)
Lemma unusedBits_integers (o : obj) (b m : Z) :
  o !! "expBits" = Some (PyInt b) → o !! "maxBits" = Some (PyInt m) →
  unusedBits computeReservedFromMaxBits o = (Ok (PyInt (m - b)), o).
Proof.
  intros Hb Hm. unfold ExposureIdInfo.unusedBits, bind, getattr, lift.
  by rewrite !Hm, Hb.
Qed.

(** C4: when [maxBits = m] is at least [expBits = b], every instance that
    the constructor returns for them has [unusedBits] equal to [m - b],
    and reading it changes nothing; the instance made from [expId = 0],
    [expBits = 2], [maxBits = 10] has [unusedBits] equal to 8. *)
Theorem unusedBits_with_maxBits :
  (∀ (expId : option pyval) (b m : Z) (o : obj),
      m >= b →
      new expId (Some (PyInt b)) (Some (PyInt m)) = Ok o →
      unusedBits computeReservedFromMaxBits o = (Ok (PyInt (m - b)), o)) ∧
  (∃ o, new (Some (PyInt 0)) (Some (PyInt 2)) (Some (PyInt 10)) = Ok o ∧
        unusedBits computeReservedFromMaxBits o = (Ok (PyInt 8), o)).
Proof.
  split.
  - intros expId b m o _ Hnew.
    destruct (new_inv _ _ _ _ Hnew) as (e & b' & _ & Hb & _ & [[Hm _]|Hm]).
    { discriminate Hm. }
    destruct Hm as (m' & _ & Hm' & _ & ->).
    simpl in Hb, Hm'. injection Hb as <-. injection Hm' as <-.
    apply unusedBits_Some.
  - exists (instance 0 2 (PyInt 10)). split.
    + by rewrite new_int_maxBits.
    + apply unusedBits_Some.
Qed.

(** C5: on an instance made with [maxBits] left out, [unusedBits] is what
    [computeReservedFromMaxBits] returns for the stored [expBits], for
    every such function: the class computes nothing of its own. *)
Theorem unusedBits_delegates
    (expId expBits : option pyval) (o : obj) :
  new expId expBits None = Ok o →
  ∃ b,
    o !! "expBits" = Some (PyInt b) ∧
    unusedBits computeReservedFromMaxBits o =
      (computeReservedFromMaxBits (PyInt b), o).
Proof.
  intros Hnew.
  destruct (new_inv _ _ _ _ Hnew) as (e & b & _ & _ & _ & [[_ ->]|Hm]).
  - exists b. split; [apply instance_expBits | apply unusedBits_None].
  - destruct Hm as (m & Hm & _). by destruct Hm.
Qed.

(** C6, amended: an instance that the constructor returns for a [maxBits]
    other than [None] stores integers [expBits = b] and [maxBits = m] with
    [m >= b]; on every object with such attributes [unusedBits] is
    [m - b], which is not negative and is zero exactly when [m = b], and
    reading it leaves the object, hence the invariant, as it was; the
    constructor accepts [maxBits = expBits], where [unusedBits] is zero. *)
Theorem budget_invariant :
  (∀ (expId expBits : option pyval) (maxBits : pyval) (o : obj),
      maxBits ≠ PyNone →
      new expId expBits (Some maxBits) = Ok o →
      budget_ok o) ∧
  (∀ (o : obj) (b m : Z),
      o !! "expBits" = Some (PyInt b) → o !! "maxBits" = Some (PyInt m) →
      b <= m →
      unusedBits computeReservedFromMaxBits o = (Ok (PyInt (m - b)), o) ∧
      0 <= m - b ∧ (m - b = 0 ↔ m = b)) ∧
  (∀ e b : Z,
      bit_length e <= b →
      ∃ o, new (Some (PyInt e)) (Some (PyInt b)) (Some (PyInt b)) = Ok o ∧
           budget_ok o ∧
           unusedBits computeReservedFromMaxBits o = (Ok (PyInt 0), o)).
Proof.
  split_and!.
  - intros expId expBits maxBits o Hsome Hnew.
    destruct (new_inv _ _ _ _ Hnew) as (e & b & _ & _ & _ & [[Hm _]|Hm]).
    { by destruct Hsome. }
    destruct Hm as (m & _ & _ & Hle & ->).
    exists b, m. split_and!;
      [apply instance_expBits | apply instance_maxBits | done].
  - intros o b m Hb Hm Hle. split_and!.
    + by apply unusedBits_integers.
    + lia.
    + lia.
  - intros e b Hlen. exists (instance e b (PyInt b)). split_and!.
    + rewrite new_int_maxBits.
      destruct (bit_length e >? b)%Z eqn:Hgt; [lia|].
      destruct (b <? b)%Z eqn:Hlt; [lia | done].
    + exists b, b. split_and!;
        [apply instance_expBits | apply instance_maxBits | lia].
    + rewrite unusedBits_Some. do 3 f_equal. lia.
Qed.

(** C8: on an instance that the constructor returns for a [maxBits] other
    than [None], reading [unusedBits] returns a value, it does not raise,
    and the attributes of the instance are the same afterwards. *)
Theorem unusedBits_pure_read
    (expId expBits : option pyval) (maxBits : pyval) (o : obj) :
  maxBits ≠ PyNone →
  new expId expBits (Some maxBits) = Ok o →
  ∃ v, unusedBits computeReservedFromMaxBits o = (Ok v, o).
Proof.
  intros Hsome Hnew.
  destruct (new_inv _ _ _ _ Hnew) as (e & b & _ & _ & _ & [[Hm _]|Hm]).
  { by destruct Hsome. }
  destruct Hm as (m & _ & _ & _ & ->).
  eexists. apply unusedBits_Some.
Qed.

(** C1: when the bit length of [e] is more than [b], the constructor raises
    [RuntimeError] for [expId = e] and [expBits = b], whatever [maxBits]
    is, and returns no instance. *)
Theorem new_expId_too_wide (e b : Z) (maxBits : option pyval) :
  bit_length e > b →
  new (Some (PyInt e)) (Some (PyInt b)) maxBits =
    Raise (RuntimeError (expId_too_wide e b)).
Proof.
  intros Hlen. unfold new. simpl default at 1 2. rewrite init_int.
  destruct (bit_length e >? b)%Z eqn:Hgt; [done | lia].
Qed.

(** C2: for [e >= 0] and [b > 0] with the bit length of [e] at most [b],
    the constructor with [maxBits] left out returns an instance whose
    attributes are [expId = e], [expBits = b] and [maxBits = None], and no
    others. *)
Theorem new_round_trip (e b : Z) :
  0 <= e → 0 < b → bit_length e <= b →
  ∃ o,
    new (Some (PyInt e)) (Some (PyInt b)) None = Ok o ∧
    o !! "expId" = Some (PyInt e) ∧
    o !! "expBits" = Some (PyInt b) ∧
    o !! "maxBits" = Some PyNone ∧
    dom o = ({["expId"; "expBits"; "maxBits"]} : gset string).
Proof.
  intros _ _ Hlen. exists (instance e b PyNone). split_and!.
  - rewrite new_int_omitted.
    destruct (bit_length e >? b)%Z eqn:Hgt; [lia | done].
  - apply instance_expId.
  - apply instance_expBits.
  - apply instance_maxBits.
  - apply instance_dom.
Qed.

(** C3: when [m < b], the constructor raises [RuntimeError] for
    [expBits = b] and [maxBits = m], for every integer [expId] and also
    when [expId] is left out. *)
Theorem new_maxBits_too_small (expId : option Z) (b m : Z) :
  m < b →
  is_RuntimeError (new (PyInt <$> expId) (Some (PyInt b)) (Some (PyInt m))).
Proof.
  intros Hlt.
  assert (Hint : ∀ e,
    is_RuntimeError (new (Some (PyInt e)) (Some (PyInt b)) (Some (PyInt m)))).
  { intros e. rewrite new_int_maxBits.
    destruct (bit_length e >? b)%Z; [by eexists|].
    destruct (m <? b)%Z eqn:Hm; [by eexists | lia]. }
  destruct expId as [e|]; [apply Hint | apply (Hint 0)].
Qed.

(** C7: the constructor accepts [expBits = 0]: for [expId = 0] and
    [expBits = 0] it returns an instance that stores [expBits = 0]. *)
Theorem new_zero_bits :
  bit_length 0 = 0 ∧
  ∃ o,
    new (Some (PyInt 0)) (Some (PyInt 0)) None = Ok o ∧
    o !! "expId" = Some (PyInt 0) ∧
    o !! "expBits" = Some (PyInt 0).
Proof.
  split; [done|]. exists (instance 0 0 PyNone). split_and!.
  - by rewrite new_int_omitted.
  - apply instance_expId.
  - apply instance_expBits.
Qed.

(** C9: for a negative [e] whose absolute value has a bit length of at most
    [b], the constructor returns an instance whose [expId] is [e]. *)
Theorem new_negative_expId (e b : Z) :
  e < 0 → bit_length (Z.abs e) <= b →
  ∃ o,
    new (Some (PyInt e)) (Some (PyInt b)) None = Ok o ∧
    o !! "expId" = Some (PyInt e) ∧
    o !! "expBits" = Some (PyInt b).
Proof.
  intros _ Hlen. rewrite bit_length_abs in Hlen.
  exists (instance e b PyNone). split_and!.
  - rewrite new_int_omitted.
    destruct (bit_length e >? b)%Z eqn:Hgt; [lia | done].
  - apply instance_expId.
  - apply instance_expBits.
Qed.

End WithIdFactory.

(** *** The theorems at concrete inputs *)

Section Witnesses.

#[local] Existing Instance sample_unicode.

Lemma new_expId_too_wide_witness :
  new (Some (PyInt 16)) (Some (PyInt 4)) None =
    Raise (RuntimeError (ustr "expId=16 uses 5 bits > expBits=4")).
Proof. apply (new_expId_too_wide 16 4 None). reflexivity. Defined.

Lemma new_round_trip_witness :
  ∃ o,
    new (Some (PyInt 5)) (Some (PyInt 4)) None = Ok o ∧
    o !! "expId" = Some (PyInt 5) ∧
    o !! "expBits" = Some (PyInt 4) ∧
    o !! "maxBits" = Some PyNone ∧
    dom o = ({["expId"; "expBits"; "maxBits"]} : gset string).
Proof. apply (new_round_trip 5 4); [lia | lia | simpl; lia]. Defined.

Lemma new_maxBits_too_small_witness :
  is_RuntimeError (new (Some (PyInt 0)) (Some (PyInt 10)) (Some (PyInt 5))).
Proof. apply (new_maxBits_too_small (Some 0) 10 5). lia. Defined.

Lemma unusedBits_with_maxBits_witness :
  unusedBits sample_reserved (instance 0 2 (PyInt 10)) =
    (Ok (PyInt (10 - 2)), instance 0 2 (PyInt 10)).
Proof.
  apply (proj1 (unusedBits_with_maxBits sample_reserved)
           (Some (PyInt 0)) 2 10 (instance 0 2 (PyInt 10))).
  - lia.
  - reflexivity.
Defined.

Lemma unusedBits_delegates_witness :
  ∃ b,
    instance 5 4 PyNone !! "expBits" = Some (PyInt b) ∧
    unusedBits sample_reserved (instance 5 4 PyNone) =
      (sample_reserved (PyInt b), instance 5 4 PyNone).
Proof.
  apply (unusedBits_delegates sample_reserved
           (Some (PyInt 5)) (Some (PyInt 4))).
  reflexivity.
Defined.

Lemma budget_invariant_witness :
  budget_ok (instance 0 2 (PyInt 10)) ∧
  (unusedBits sample_reserved (instance 0 2 (PyInt 10)) =
     (Ok (PyInt (10 - 2)), instance 0 2 (PyInt 10)) ∧
   0 <= 10 - 2 ∧ (10 - 2 = 0 ↔ 10 = 2)) ∧
  (∃ o, new (Some (PyInt 5)) (Some (PyInt 3)) (Some (PyInt 3)) = Ok o ∧
        budget_ok o ∧
        unusedBits sample_reserved o = (Ok (PyInt 0), o)).
Proof.
  destruct (budget_invariant sample_reserved) as (Hnew & Hread & Hzero).
  split; [|split].
  - apply (Hnew (Some (PyInt 0)) (Some (PyInt 2)) (PyInt 10));
      [discriminate | reflexivity].
  - apply (Hread (instance 0 2 (PyInt 10)) 2 10);
      [reflexivity | reflexivity | lia].
  - apply (Hzero 5 3). simpl. lia.
Defined.

Lemma unusedBits_pure_read_witness :
  ∃ v, unusedBits sample_reserved (instance 7 3 (PyInt 3)) =
         (Ok v, instance 7 3 (PyInt 3)).
Proof.
  apply (unusedBits_pure_read sample_reserved
           (Some (PyInt 7)) (Some (PyInt 3)) (PyInt 3)).
  - discriminate.
  - reflexivity.
Defined.

Lemma new_negative_expId_witness :
  ∃ o,
    new (Some (PyInt (-5))) (Some (PyInt 3)) None = Ok o ∧
    o !! "expId" = Some (PyInt (-5)) ∧
    o !! "expBits" = Some (PyInt 3).
Proof. apply (new_negative_expId (-5) 3); [lia | simpl; lia]. Defined.

(** C6, as the claim has it, fails: the instance is not immutable, and
    not every operation keeps [maxBits >= expBits].  [__init__] run again
    on the instance made from [(1, 1, 2)], with [(3, 8, 5)], assigns
    [expBits = 8], raises at the [maxBits] check and leaves [maxBits = 2]:
    the invariant is gone and [unusedBits] is [-6]. *)
Lemma init_rerun_breaks_invariant :
  new (Some (PyInt 1)) (Some (PyInt 1)) (Some (PyInt 2)) =
    Ok (instance 1 1 (PyInt 2)) ∧
  budget_ok (instance 1 1 (PyInt 2)) ∧
  __init__ (PyInt 3) (PyInt 8) (PyInt 5) (instance 1 1 (PyInt 2)) =
    (Raise (RuntimeError (ustr "expBits=8 > maxBits=5")),
     instance 3 8 (PyInt 2)) ∧
  ¬ budget_ok (instance 3 8 (PyInt 2)) ∧
  unusedBits sample_reserved (instance 3 8 (PyInt 2)) =
    (Ok (PyInt (-6)), instance 3 8 (PyInt 2)).
Proof.
  split_and!.
  - reflexivity.
  - exists 1, 2. split_and!; [reflexivity | reflexivity | lia].
  - reflexivity.
  - intros (b & m & Hb & Hm & Hle).
    rewrite instance_expBits in Hb. rewrite instance_maxBits in Hm.
    simplify_eq. lia.
  - reflexivity.
Qed.

End Witnesses.

End ExposureIdInfoFacts.

(** ** utils.py *)

Module UtilsFacts.

Lemma ustr_app (a b : string) : ustr (a +:+ b) = ustr a ++ ustr b.
Proof.
  induction a as [|x a IH]; [done|].
  change (chr x :: ustr (a +:+ b) = chr x :: (ustr a ++ ustr b)).
  by rewrite IH.
Qed.

(** *** Characters *)

Lemma is_space_inv c :
  is_space c = true →
  (9 <= c <= 13 ∨ c = 32 ∨ 128 <= c)%N.
Proof.
  unfold is_space.
  rewrite !orb_true_iff, !andb_true_iff, !N.leb_le, !N.eqb_eq. lia.
Qed.

Section WithUnicode.

Context {db : UnicodeData}.

Lemma is_digit_in_class c : is_digit c = true → in_class c = true.
Proof. unfold in_class. intros ->. apply orb_true_r. Qed.

Lemma in_class_cases c : in_class c = true → c = chr "-" ∨ is_digit c = true.
Proof.
  unfold in_class. intros [Hc|Hc]%orb_true_iff; [left | by right].
  by apply N.eqb_eq.
Qed.

Lemma is_digit_not_space c : is_digit c = true → is_space c = false.
Proof.
  unfold is_digit, decimal_of. intros Hd.
  destruct (is_space c) eqn:Hs; [|done]. exfalso.
  destruct (c <? 128)%N eqn:Hlt; [|done].
  apply N.ltb_lt in Hlt.
  destruct ((48 <=? c) && (c <=? 57))%N eqn:Hrange; [|done].
  apply andb_true_iff in Hrange as [Hlo Hhi].
  apply N.leb_le in Hlo. apply N.leb_le in Hhi.
  apply is_space_inv in Hs. lia.
Qed.

Lemma in_class_not_space c : in_class c = true → is_space c = false.
Proof.
  intros [->|Hd]%in_class_cases; [done | by apply is_digit_not_space].
Qed.

Lemma is_digit_not_sign c :
  is_digit c = true →
  (c =? chr "-")%N = false ∧ (c =? chr "+")%N = false ∧
  (c =? chr "_")%N = false.
Proof.
  intros Hd. split_and!; apply N.eqb_neq; intros ->; discriminate Hd.
Qed.

(** *** Strings *)

Lemma forallb_impl (p q : N → bool) (s : pystr) :
  (∀ c, p c = true → q c = true) →
  forallb p s = true → forallb q s = true.
Proof.
  intros Hpq. induction s as [|c s IH]; simpl; [done|].
  intros [Hc Hs]%andb_true_iff. by rewrite (Hpq c Hc), IH.
Qed.

Lemma lstrip_id c s : is_space c = false → lstrip (c :: s) = c :: s.
Proof. simpl. by intros ->. Qed.

Lemma rstrip_id s :
  forallb (λ c, negb (is_space c)) s = true → rstrip s = s.
Proof.
  induction s as [|c s IH]; simpl; [done|].
  intros [Hc Hs]%andb_true_iff. rewrite (IH Hs).
  apply negb_true_iff in Hc. rewrite Hc. by destruct s.
Qed.

Lemma strip_group g : forallb in_class g = true → strip g = g.
Proof.
  intros Hg. unfold strip.
  assert (Hns : forallb (λ c, negb (is_space c)) g = true).
  { apply (forallb_impl in_class); [|done].
    intros c Hc. by rewrite (in_class_not_space c Hc). }
  destruct g as [|c g]; [done|].
  simpl in Hns. apply andb_true_iff in Hns as [Hc Hns].
  apply negb_true_iff in Hc.
  rewrite (lstrip_id c g Hc). apply rstrip_id. simpl. by rewrite Hc, Hns.
Qed.

(** *** The pattern *)

Lemma span_class_stop g d t :
  forallb in_class g = true → in_class d = false →
  span_class (g ++ d :: t) = (g, d :: t).
Proof.
  intros Hg Hd. induction g as [|c g IH]; simpl.
  - by rewrite Hd.
  - simpl in Hg. apply andb_true_iff in Hg as [Hc Hg].
    by rewrite Hc, (IH Hg).
Qed.

Lemma span_class_inv s g t :
  span_class s = (g, t) → s = g ++ t ∧ forallb in_class g = true.
Proof.
  revert g t. induction s as [|c s IH]; simpl; intros g t Hs.
  - by simplify_eq.
  - destruct (in_class c) eqn:Hc.
    + destruct (span_class s) as [g' t'] eqn:Hs'. simplify_eq.
      destruct (IH g' t eq_refl) as [-> Hg']. simpl. by rewrite Hc, Hg'.
    + by simplify_eq.
Qed.

Lemma group_then_intro sep g t :
  in_class sep = false → is_group g →
  group_then sep (g ++ sep :: t) = Some (g, t).
Proof.
  intros Hsep [Hne Hg]. unfold group_then.
  rewrite (span_class_stop g sep t Hg Hsep).
  destruct g as [|c g]; [done|]. by rewrite N.eqb_refl.
Qed.

Lemma group_then_inv sep s g t :
  group_then sep s = Some (g, t) → is_group g ∧ s = g ++ sep :: t.
Proof.
  unfold group_then. destruct (span_class s) as [g' t'] eqn:Hs.
  apply span_class_inv in Hs as [-> Hg'].
  destruct g' as [|c g']; [done|]. destruct t' as [|d t']; [done|].
  destruct (N.eqb_spec d sep) as [->|]; [|done].
  intros ?; simplify_eq. by split.
Qed.

Lemma at_dollar_spec tl : at_dollar tl = true ↔ tl = [] ∨ tl = newline.
Proof.
  unfold newline. destruct tl as [|c [|d tl]]; simpl.
  - split; [by left | done].
  - rewrite N.eqb_eq. split.
    + intros ->. by right.
    + intros [?|?]; by simplify_eq.
  - split; [done | intros [?|?]; discriminate].
Qed.

Lemma iraf_str_unfold x0 x1 y0 y1 tl :
  iraf_str x0 x1 y0 y1 tl =
    chr "[" :: (x0 ++ chr ":" :: (x1 ++ chr "," ::
      (y0 ++ chr ":" :: (y1 ++ chr "]" :: tl)))).
Proof. reflexivity. Qed.

(** [iraf_search] finds exactly the matches of the pattern. *)
Lemma iraf_search_spec s gs : iraf_search s = Some gs ↔ iraf_re s gs.
Proof.
  split.
  - destruct s as [|c s1]; simpl; [done|].
    destruct (N.eqb_spec c (chr "[")) as [->|]; [|done].
    destruct (group_then (chr ":") s1) as [[x0 s2]|] eqn:H0; [|done]. simpl.
    destruct (group_then (chr ",") s2) as [[x1 s3]|] eqn:H1; [|done]. simpl.
    destruct (group_then (chr ":") s3) as [[y0 s4]|] eqn:H2; [|done]. simpl.
    destruct (group_then (chr "]") s4) as [[y1 s5]|] eqn:H3; [|done]. simpl.
    destruct (at_dollar s5) eqn:H5; [|done].
    intros ?; simplify_eq.
    apply group_then_inv in H0 as [G0 ->].
    apply group_then_inv in H1 as [G1 ->].
    apply group_then_inv in H2 as [G2 ->].
    apply group_then_inv in H3 as [G3 ->].
    apply at_dollar_spec in H5.
    rewrite <- iraf_str_unfold. by apply iraf_re_intro.
  - intros [x0 x1 y0 y1 tl G0 G1 G2 G3 Htl]. rewrite iraf_str_unfold.
    unfold iraf_search. rewrite N.eqb_refl.
    rewrite (group_then_intro (chr ":") x0 _ eq_refl G0). simpl.
    rewrite (group_then_intro (chr ",") x1 _ eq_refl G1). simpl.
    rewrite (group_then_intro (chr ":") y0 _ eq_refl G2). simpl.
    rewrite (group_then_intro (chr "]") y1 _ eq_refl G3). simpl.
    apply at_dollar_spec in Htl. by rewrite Htl.
Qed.

(** *** [int()] on a group of the pattern *)

Lemma digits_value_digits acc after ds :
  forallb is_digit ds = true → ds ≠ [] ∨ after = true →
  digits_value acc after ds = Some (decimal_value acc ds).
Proof.
  revert acc after. induction ds as [|d ds IH]; intros acc after Hds Hne.
  - destruct Hne as [?| ->]; done.
  - simpl in Hds. apply andb_true_iff in Hds as [Hd Hds].
    simpl. rewrite Hd. apply IH; [done | by right].
Qed.

Lemma digits_value_class acc after s z :
  forallb in_class s = true →
  digits_value acc after s = Some z →
  forallb is_digit s = true ∧ z = decimal_value acc s ∧
  (s ≠ [] ∨ after = true).
Proof.
  revert acc after. induction s as [|c s IH]; intros acc after Hs Hz.
  - simpl in Hz. destruct after; [|done]. simplify_eq. by split_and!; [..|right].
  - simpl in Hs. apply andb_true_iff in Hs as [Hc Hs].
    simpl in Hz. destruct (is_digit c) eqn:Hd.
    + destruct (IH _ _ Hs Hz) as (Hds & -> & _).
      simpl. rewrite Hd. by split_and!; [..|left].
    + apply in_class_cases in Hc as [->|Hc]; [done | congruence].
Qed.

Lemma int_literal_group g z : int_literal g z → is_group g.
Proof.
  intros [ds Hne Hds|ds Hne Hds]; (split; [by destruct ds|]).
  - by apply (forallb_impl is_digit), Hds; apply is_digit_in_class.
  - simpl. by apply (forallb_impl is_digit), Hds; apply is_digit_in_class.
Qed.

(** [int()] returns the value of an integer literal. *)
Lemma int_of_str_literal g z : int_literal g z → int_of_str g = Ok z.
Proof.
  intros Hlit. unfold int_of_str.
  rewrite (strip_group g (proj2 (int_literal_group g z Hlit))).
  destruct Hlit as [ds Hne Hds|ds Hne Hds].
  - destruct ds as [|d ds]; [done|].
    pose proof Hds as Hds'. simpl in Hds'.
    apply andb_true_iff in Hds' as [Hd _].
    destruct (is_digit_not_sign d Hd) as (-> & -> & _).
    by rewrite (digits_value_digits 0 false _ Hds (or_introl Hne)).
  - rewrite N.eqb_refl.
    by rewrite (digits_value_digits 0 false _ Hds (or_introl Hne)).
Qed.

(** On a group of the pattern, [int()] returns a value only for an integer
    literal. *)
Lemma int_of_str_group g z :
  is_group g → int_of_str g = Ok z → int_literal g z.
Proof.
  intros [Hne Hg]. unfold int_of_str. rewrite (strip_group g Hg).
  destruct g as [|c g]; [done|].
  simpl in Hg. apply andb_true_iff in Hg as [Hc Hg].
  destruct (N.eqb_spec c (chr "-")) as [->|Hminus].
  - destruct (digits_value 0 false g) as [v|] eqn:Hv; [|done].
    simpl. intros ?; simplify_eq.
    destruct (digits_value_class _ _ _ _ Hg Hv) as (Hds & -> & [Hg'|?]); [|done].
    by apply int_literal_minus.
  - apply in_class_cases in Hc as [->|Hd]; [done|].
    destruct (is_digit_not_sign c Hd) as (_ & -> & _).
    destruct (digits_value 0 false (c :: g)) as [v|] eqn:Hv; [|done].
    intros ?; simplify_eq.
    assert (Hcg : forallb in_class (c :: g) = true).
    { simpl. by rewrite (is_digit_in_class c Hd), Hg. }
    destruct (digits_value_class _ _ _ _ Hcg Hv) as (Hds & -> & _).
    by apply int_literal_digits.
Qed.

(** [int()] on a group of the pattern raises only [ValueError], with the
    group, and only when the group is not an integer literal. *)
Lemma int_of_str_group_Raise g x :
  int_of_str g = Raise x → x = ValueError g ∧ ∀ z, ¬ int_literal g z.
Proof.
  intros Hg. split.
  - unfold int_of_str in Hg.
    destruct (match strip g with _ :: _ => _ | [] => _ end);
      [done | by simplify_eq].
  - intros z Hz. apply int_of_str_literal in Hz. congruence.
Qed.

(** *** [bboxFromIraf] *)

(** [bboxFromIraf] on ["[x0:x1,y0:y1]"], with or without a newline after
    it. *)
Lemma bboxFromIraf_literals g0 g1 g2 g3 x0 x1 y0 y1 tl :
  int_literal g0 x0 → int_literal g1 x1 →
  int_literal g2 y0 → int_literal g3 y1 →
  tl = [] ∨ tl = newline →
  bboxFromIraf (iraf_str g0 g1 g2 g3 tl) =
    Ok (BoxI (PointI (x0 - 1) (y0 - 1)) (PointI (x1 - 1) (y1 - 1))).
Proof.
  intros L0 L1 L2 L3 Htl. unfold bboxFromIraf.
  assert (Hre : iraf_re (iraf_str g0 g1 g2 g3 tl) (g0, g1, g2, g3)).
  { apply iraf_re_intro; eauto using int_literal_group. }
  apply iraf_search_spec in Hre. rewrite Hre.
  rewrite (int_of_str_literal _ _ L0), (int_of_str_literal _ _ L1),
    (int_of_str_literal _ _ L2), (int_of_str_literal _ _ L3).
  reflexivity.
Qed.

(** When [bboxFromIraf] returns, its argument has that form. *)
Lemma bboxFromIraf_Ok_inv s box :
  bboxFromIraf s = Ok box →
  ∃ g0 g1 g2 g3 x0 x1 y0 y1 tl,
    int_literal g0 x0 ∧ int_literal g1 x1 ∧
    int_literal g2 y0 ∧ int_literal g3 y1 ∧
    (tl = [] ∨ tl = newline) ∧
    s = iraf_str g0 g1 g2 g3 tl ∧
    box = BoxI (PointI (x0 - 1) (y0 - 1)) (PointI (x1 - 1) (y1 - 1)).
Proof.
  unfold bboxFromIraf.
  destruct (iraf_search s) as [[[[g0 g1] g2] g3]|] eqn:Hs; [|done].
  apply iraf_search_spec in Hs.
  inversion Hs as [? ? ? ? tl G0 G1 G2 G3 Htl Heq]; subst.
  destruct (int_of_str g0) as [x0|] eqn:H0; [|done].
  destruct (int_of_str g1) as [x1|] eqn:H1; [|done].
  destruct (int_of_str g2) as [y0|] eqn:H2; [|done].
  destruct (int_of_str g3) as [y1|] eqn:H3; [|done].
  simpl. intros ?; simplify_eq.
  exists g0, g1, g2, g3, x0, x1, y0, y1, tl.
  split_and!; auto using int_of_str_group.
Qed.

(** What [bboxFromIraf] raises: [RuntimeError] when the pattern does not
    match, [ValueError] from [int()] otherwise. *)
Lemma bboxFromIraf_Raise_inv s e :
  bboxFromIraf s = Raise e →
  (iraf_search s = None ∧ e = RuntimeError (unable_to_parse s)) ∨
  (∃ g, e = ValueError g).
Proof.
  unfold bboxFromIraf.
  destruct (iraf_search s) as [[[[g0 g1] g2] g3]|] eqn:Hs.
  - intros He. right.
    destruct (int_of_str g0) as [x0|x] eqn:H0;
      [|simpl in He; simplify_eq;
        apply int_of_str_group_Raise in H0 as [-> _]; by eexists].
    destruct (int_of_str g1) as [x1|x] eqn:H1;
      [|simpl in He; simplify_eq;
        apply int_of_str_group_Raise in H1 as [-> _]; by eexists].
    destruct (int_of_str g2) as [y0|x] eqn:H2;
      [|simpl in He; simplify_eq;
        apply int_of_str_group_Raise in H2 as [-> _]; by eexists].
    destruct (int_of_str g3) as [y1|x] eqn:H3;
      [|simpl in He; simplify_eq;
        apply int_of_str_group_Raise in H3 as [-> _]; by eexists].
    done.
  - intros ?; simplify_eq. by left.
Qed.

(** The form without the newline is found by [iraf_search]. *)
Lemma iraf_form_search s :
  iraf_form s →
  ∃ g0 g1 g2 g3,
    iraf_search s = Some (g0, g1, g2, g3) ∧ s = iraf_str g0 g1 g2 g3 [].
Proof.
  intros (g0 & g1 & g2 & g3 & x0 & x1 & y0 & y1 & L0 & L1 & L2 & L3 & ->).
  exists g0, g1, g2, g3. split; [|done].
  apply iraf_search_spec, iraf_re_intro; eauto using int_literal_group.
Qed.

(** C10, amended: for integer literals [x0], [x1], [y0], [y1] (one or more
    decimal digits, [0] to [9] or any other decimal digit of Unicode, with
    or without a minus sign before them), [bboxFromIraf] returns the box of
    [(x0 - 1, y0 - 1)] and [(x1 - 1, y1 - 1)] on ["[x0:x1,y0:y1]"] and on
    that string followed by one newline; on every other string it raises.
    This holds whatever the Unicode table is. *)
Theorem bboxFromIraf_spec :
  (∀ g0 g1 g2 g3 x0 x1 y0 y1 tl,
      int_literal g0 x0 → int_literal g1 x1 →
      int_literal g2 y0 → int_literal g3 y1 →
      tl = [] ∨ tl = newline →
      bboxFromIraf (iraf_str g0 g1 g2 g3 tl) =
        Ok (BoxI (PointI (x0 - 1) (y0 - 1)) (PointI (x1 - 1) (y1 - 1)))) ∧
  (∀ s, ¬ iraf_form_nl s → is_error (bboxFromIraf s)).
Proof.
  split; [apply bboxFromIraf_literals|].
  intros s Hform. destruct (bboxFromIraf s) as [box|e] eqn:Hs; [|by eexists].
  destruct Hform.
  apply bboxFromIraf_Ok_inv in Hs
    as (g0 & g1 & g2 & g3 & x0 & x1 & y0 & y1 & tl & ? & ? & ? & ? & ? & ? & _).
  by exists g0, g1, g2, g3, x0, x1, y0, y1, tl.
Qed.

End WithUnicode.

Section Witnesses.

#[local] Existing Instance sample_unicode.

(** C10, as the claim has it, fails: the string ["[1:2,3:4]"] followed by a
    newline is not of the form ["[x0:x1,y0:y1]"], and [bboxFromIraf]
    returns a box for it. *)
Lemma bboxFromIraf_trailing_newline :
  ¬ iraf_form (ustr "[1:2,3:4]" ++ newline) ∧
  bboxFromIraf (ustr "[1:2,3:4]" ++ newline) =
    Ok (BoxI (PointI 0 2) (PointI 1 3)) ∧
  ¬ is_error (bboxFromIraf (ustr "[1:2,3:4]" ++ newline)).
Proof.
  split_and!.
  - intros (g0 & g1 & g2 & g3 & Hs & Heq)%iraf_form_search.
    vm_compute in Hs. injection Hs as <- <- <- <-. discriminate Heq.
  - reflexivity.
  - intros [e He]. vm_compute in He. discriminate He.
Qed.

Lemma int_literal_1 : int_literal (ustr "1") 1.
Proof. by apply (int_literal_digits (ustr "1")). Defined.

Lemma int_literal_m2 : int_literal (ustr "-2") (-2).
Proof. by apply (int_literal_minus (ustr "2")). Defined.

Lemma int_literal_30 : int_literal (ustr "30") 30.
Proof. by apply (int_literal_digits (ustr "30")). Defined.

Lemma int_literal_arabic_indic_4 : int_literal [0x660; 0x664]%N 4.
Proof.
  exact (int_literal_digits [0x660; 0x664]%N ltac:(discriminate) eq_refl).
Defined.

Lemma not_iraf_form_nl_empty : ¬ iraf_form_nl [].
Proof.
  intros (g0 & g1 & g2 & g3 & x0 & x1 & y0 & y1 & tl & _ & _ & _ & _ & _ & Hs).
  discriminate Hs.
Defined.

Lemma bboxFromIraf_spec_witness :
  bboxFromIraf (ustr "[1:-2,30:" ++ [0x660; 0x664]%N ++ ustr "]") =
    Ok (BoxI (PointI 0 29) (PointI (-3) 3)) ∧
  is_error (bboxFromIraf []).
Proof.
  split.
  - apply (proj1 bboxFromIraf_spec (ustr "1") (ustr "-2") (ustr "30")
             [0x660; 0x664]%N 1 (-2) 30 4 []);
      [apply int_literal_1 | apply int_literal_m2 | apply int_literal_30
      | apply int_literal_arabic_indic_4 | by left].
  - apply (proj2 bboxFromIraf_spec []), not_iraf_form_nl_empty.
Defined.

End Witnesses.

End UtilsFacts.

(** * Further properties *)

(** ** [bit_length], numerically *)

Lemma bit_length_opp (x : Z) : bit_length (- x) = bit_length x.
Proof. by destruct x. Qed.

Lemma bit_length_pos (x : Z) : x ≠ 0 → 1 <= bit_length x.
Proof. destruct x; simpl; [done | lia | lia]. Qed.

(** [x] has at most [b] bits exactly when [|x| < 2^b], for [b >= 0]. *)
Lemma bit_length_le_iff (x b : Z) :
  bit_length x <= b ↔ 0 <= b ∧ Z.abs x < 2 ^ b.
Proof.
  destruct (decide (x = 0)) as [->|Hne].
  - simpl. split; [|lia]. intros Hb. split; [done|].
    apply Z.pow_pos_nonneg; lia.
  - pose proof (bit_length_spec x Hne) as [Hlo Hhi].
    pose proof (bit_length_pos x Hne) as Hk.
    split.
    + intros Hle. split; [lia|].
      eapply Z.lt_le_trans; [exact Hhi|]. apply Z.pow_le_mono_r; lia.
    + intros [Hb Hlt].
      assert (Hpow : 2 ^ (bit_length x - 1) < 2 ^ b) by lia.
      apply Z.pow_lt_mono_r_iff in Hpow; lia.
Qed.

(** ** exposureIdInfo.py *)

Module ExposureIdInfoMore.
Import ExposureIdInfo ExposureIdInfoFacts.

Section WithIdFactory.

Context {db : UnicodeData}.

Variable computeReservedFromMaxBits : pyval → result pyval.

(** X1: on integer arguments the constructor returns an instance exactly
    when [expId] has at most [expBits] bits and [maxBits], when it is given,
    is at least [expBits]. *)
Theorem new_succeeds_iff (e b : Z) (m : option Z) :
  (∃ o, new (Some (PyInt e)) (Some (PyInt b)) (PyInt <$> m) = Ok o) ↔
  bit_length e <= b ∧ (∀ k, m = Some k → b <= k).
Proof.
  destruct m as [k|]; simpl.
  - rewrite new_int_maxBits.
    destruct (bit_length e >? b)%Z eqn:Hgt.
    { split; [intros [o ?]; done | intros [? _]; lia]. }
    destruct (k <? b)%Z eqn:Hlt.
    + split; [intros [o ?]; done|].
      intros [_ Hk]. specialize (Hk k eq_refl). lia.
    + split; [|by eexists].
      intros _. split; [lia|]. intros k' ?; simplify_eq. lia.
  - rewrite new_int_omitted.
    destruct (bit_length e >? b)%Z eqn:Hgt.
    + split; [intros [o ?]; done | intros [? _]; lia].
    + split; [|by eexists]. intros _. split; [lia | done].
Qed.

(** X2: whatever the arguments, an instance that the constructor returns
    has exactly the attributes [expId], [expBits] and [maxBits]; the first
    two are integers [e] and [b] with [b >= 0] and [-2^b < e < 2^b]. *)
Theorem new_expId_in_range
    (expId expBits maxBits : option pyval) (o : obj) :
  new expId expBits maxBits = Ok o →
  ∃ e b,
    o !! "expId" = Some (PyInt e) ∧
    o !! "expBits" = Some (PyInt b) ∧
    0 <= b ∧ - 2 ^ b < e < 2 ^ b ∧
    dom o = ({["expId"; "expBits"; "maxBits"]} : gset string).
Proof.
  intros Hnew.
  destruct (new_inv _ _ _ _ Hnew) as (e & b & _ & _ & Hlen & Ho).
  apply bit_length_le_iff in Hlen as [Hb He].
  assert (Hobj : ∃ m, o = instance e b m).
  { destruct Ho as [[_ ->]|(m & _ & _ & _ & ->)]; by eexists. }
  destruct Hobj as [m ->]. exists e, b. split_and!.
  - apply instance_expId.
  - apply instance_expBits.
  - done.
  - lia.
  - lia.
  - apply instance_dom.
Qed.

(** X3: the bound is tight: for [k >= 0], [2^k - 1] is accepted with
    [expBits = k] and [2^k] is refused. *)
Theorem new_power_of_two_boundary (k : Z) :
  0 <= k →
  (∃ o, new (Some (PyInt (2 ^ k - 1))) (Some (PyInt k)) None = Ok o) ∧
  is_RuntimeError (new (Some (PyInt (2 ^ k))) (Some (PyInt k)) None).
Proof.
  intros Hk. assert (Hpow : 0 < 2 ^ k) by (apply Z.pow_pos_nonneg; lia).
  split.
  - rewrite new_int_omitted.
    destruct (bit_length (2 ^ k - 1) >? k)%Z eqn:Hgt; [|by eexists].
    assert (Hle : bit_length (2 ^ k - 1) <= k) by (apply bit_length_le_iff; lia).
    lia.
  - rewrite new_int_omitted.
    destruct (bit_length (2 ^ k) >? k)%Z eqn:Hgt; [by eexists|].
    assert (Hle : bit_length (2 ^ k) <= k) by lia.
    apply bit_length_le_iff in Hle. lia.
Qed.

(** X4: [__init__] assigns [expId] and [expBits] before it checks
    [maxBits].  Run on an object that exists, with a [maxBits] that is too
    small, it raises and leaves the new [expId] and [expBits] in the
    object, beside the [maxBits] the object had. *)
Theorem init_maxBits_failure_keeps_assignments
    (e b m : Z) (self : obj) :
  bit_length e <= b → m < b →
  ∃ self',
    __init__ (PyInt e) (PyInt b) (PyInt m) self =
      (Raise (RuntimeError (expBits_too_wide b m)), self') ∧
    self' !! "expId" = Some (PyInt e) ∧
    self' !! "expBits" = Some (PyInt b) ∧
    self' !! "maxBits" = self !! "maxBits".
Proof.
  intros Hlen Hlt. rewrite init_int.
  destruct (bit_length e >? b)%Z eqn:Hgt; [lia|]. simpl.
  destruct (m <? b)%Z eqn:Hm; [|lia].
  eexists. split; [done|]. by simplify_map_eq.
Qed.

(** X5: when [expId] is too wide, [__init__] raises before it assigns
    anything: the object it was run on is as it was, whatever [maxBits]
    is. *)
Theorem init_expId_failure_assigns_nothing
    (e b : Z) (maxBits : pyval) (self : obj) :
  bit_length e > b →
  __init__ (PyInt e) (PyInt b) maxBits self =
    (Raise (RuntimeError (expId_too_wide e b)), self).
Proof.
  intros Hlen. rewrite init_int.
  destruct (bit_length e >? b)%Z eqn:Hgt; [done | lia].
Qed.

(** X7: a value that [int()] refuses for [expId], or for [expBits] after an
    integer [expId], makes the constructor raise the error of [int()],
    before the width check and whatever the other arguments are.  [None]
    given for [expId] is not replaced by the default. *)
Theorem new_coercion_error (a : pyval) (x : exn) :
  py_int a = Raise x →
  (∀ expBits maxBits, new (Some a) expBits maxBits = Raise x) ∧
  (∀ e maxBits, new (Some (PyInt e)) (Some a) maxBits = Raise x).
Proof.
  intros Ha. split.
  - intros expBits maxBits. unfold new, __init__, bind, lift. simpl default.
    by rewrite Ha.
  - intros e maxBits. unfold new, __init__, bind, lift. simpl default.
    simpl py_int at 1. by rewrite Ha.
Qed.

(** X8: the sign of [expId] plays no part: the constructor returns an
    instance for [- e] exactly when it returns one for [e]. *)
Theorem new_sign_symmetric (e b : Z) (maxBits : option pyval) :
  (∃ o, new (Some (PyInt (- e))) (Some (PyInt b)) maxBits = Ok o) ↔
  (∃ o, new (Some (PyInt e)) (Some (PyInt b)) maxBits = Ok o).
Proof.
  unfold new. simpl default at 1 2 4 5. rewrite !init_int, bit_length_opp.
  destruct (bit_length e >? b)%Z; [split; intros [o ?]; done|].
  destruct (default default_maxBits maxBits) as [|m|s]; simpl.
  - split; intros _; by eexists.
  - destruct (m <? b)%Z; [split; intros [o ?]; done|].
    split; intros _; by eexists.
  - destruct (int_of_str s) as [m|]; [|split; intros [o ?]; done].
    destruct (m <? b)%Z; [split; intros [o ?]; done|].
    split; intros _; by eexists.
Qed.

(** X6: reading [unusedBits] never assigns an attribute: on every object,
    made by the constructor or not, and for every function taken as
    [computeReservedFromMaxBits], the object is the same afterwards, also
    when the read raises. *)
Theorem unusedBits_never_writes (o : obj) :
  (unusedBits computeReservedFromMaxBits o).2 = o.
Proof.
  unfold unusedBits, bind, getattr, lift.
  destruct (o !! "maxBits") as [[|m|s]|] eqn:Hm; simpl; [| | |done];
    rewrite ?Hm; destruct (o !! "expBits"); done.
Qed.

(** X9: with [maxBits = m] fixed, an instance for [expBits = b] stays
    constructible for every wider [b'] up to [m], and its [unusedBits]
    drops by [b' - b]. *)
Theorem widen_expBits (e b b' m : Z) (o : obj) :
  new (Some (PyInt e)) (Some (PyInt b)) (Some (PyInt m)) = Ok o →
  b <= b' <= m →
  ∃ o' u u',
    new (Some (PyInt e)) (Some (PyInt b')) (Some (PyInt m)) = Ok o' ∧
    unusedBits computeReservedFromMaxBits o = (Ok (PyInt u), o) ∧
    unusedBits computeReservedFromMaxBits o' = (Ok (PyInt u'), o') ∧
    u' = u - (b' - b).
Proof.
  rewrite !new_int_maxBits. intros Hnew Hb'.
  destruct (bit_length e >? b)%Z eqn:Hgt; [done|].
  destruct (m <? b)%Z eqn:Hlt; [done|]. simplify_eq.
  destruct (bit_length e >? b')%Z eqn:Hgt'; [lia|].
  destruct (m <? b')%Z eqn:Hlt'; [lia|].
  exists (instance e b' (PyInt m)), (m - b), (m - b').
  split_and!; [done | apply unusedBits_Some | apply unusedBits_Some | lia].
Qed.

End WithIdFactory.

Section Witnesses.

#[local] Existing Instance sample_unicode.

Lemma new_succeeds_iff_witness :
  ∃ o, new (Some (PyInt 5)) (Some (PyInt 4)) (Some (PyInt 10)) = Ok o.
Proof.
  apply (proj2 (new_succeeds_iff 5 4 (Some 10))).
  split; [simpl; lia|]. intros k [= <-]. lia.
Defined.

Lemma new_expId_in_range_witness :
  ∃ e b,
    instance (-5) 3 PyNone !! "expId" = Some (PyInt e) ∧
    instance (-5) 3 PyNone !! "expBits" = Some (PyInt b) ∧
    0 <= b ∧ - 2 ^ b < e < 2 ^ b ∧
    dom (instance (-5) 3 PyNone) =
      ({["expId"; "expBits"; "maxBits"]} : gset string).
Proof.
  apply (new_expId_in_range (Some (PyStr (ustr "-5"))) (Some (PyInt 3)) None).
  reflexivity.
Defined.

Lemma new_power_of_two_boundary_witness :
  (∃ o, new (Some (PyInt (2 ^ 4 - 1))) (Some (PyInt 4)) None = Ok o) ∧
  is_RuntimeError (new (Some (PyInt (2 ^ 4))) (Some (PyInt 4)) None).
Proof. apply (new_power_of_two_boundary 4). lia. Defined.

Lemma init_maxBits_failure_keeps_assignments_witness :
  ∃ self',
    __init__ (PyInt 3) (PyInt 8) (PyInt 5) (instance 1 1 (PyInt 2)) =
      (Raise (RuntimeError (expBits_too_wide 8 5)), self') ∧
    self' !! "expId" = Some (PyInt 3) ∧
    self' !! "expBits" = Some (PyInt 8) ∧
    self' !! "maxBits" = instance 1 1 (PyInt 2) !! "maxBits".
Proof.
  apply (init_maxBits_failure_keeps_assignments 3 8 5); [simpl; lia | lia].
Defined.

Lemma init_expId_failure_assigns_nothing_witness :
  __init__ (PyInt 16) (PyInt 4) (PyStr (ustr "x")) (instance 1 1 PyNone) =
    (Raise (RuntimeError (expId_too_wide 16 4)), instance 1 1 PyNone).
Proof.
  apply (init_expId_failure_assigns_nothing 16 4). reflexivity.
Defined.

Lemma new_coercion_error_witness :
  (∀ expBits maxBits,
      new (Some (PyStr (chr "028" :: ustr "3"))) expBits maxBits =
        Raise (ValueError (chr "028" :: ustr "3"))) ∧
  (∀ e maxBits,
      new (Some (PyInt e)) (Some (PyStr (chr "028" :: ustr "3"))) maxBits =
        Raise (ValueError (chr "028" :: ustr "3"))).
Proof.
  apply (new_coercion_error (PyStr (chr "028" :: ustr "3"))
           (ValueError (chr "028" :: ustr "3"))).
  reflexivity.
Defined.

Lemma new_sign_symmetric_witness :
  ∃ o, new (Some (PyInt (- 5))) (Some (PyInt 3)) None = Ok o.
Proof.
  apply (proj2 (new_sign_symmetric 5 3 None)). by eexists.
Defined.

Lemma widen_expBits_witness :
  ∃ o' u u',
    new (Some (PyInt 5)) (Some (PyInt 6)) (Some (PyInt 10)) = Ok o' ∧
    unusedBits sample_reserved (instance 5 4 (PyInt 10)) =
      (Ok (PyInt u), instance 5 4 (PyInt 10)) ∧
    unusedBits sample_reserved o' = (Ok (PyInt u'), o') ∧
    u' = u - (6 - 4).
Proof.
  apply (widen_expBits sample_reserved 5 4 6 10); [reflexivity | lia].
Defined.

End Witnesses.

End ExposureIdInfoMore.

(** ** utils.py *)

Module UtilsMore.
Import UtilsFacts.

Section WithUnicode.

Context {db : UnicodeData}.

(** *** The decimal rendering of an integer is an integer literal *)

Lemma append_assoc (a b c : string) : (a +:+ b) +:+ c = a +:+ (b +:+ c).
Proof.
  induction a as [|x a IH]; [done|].
  change (String x ((a +:+ b) +:+ c) = String x (a +:+ (b +:+ c))).
  by rewrite IH.
Qed.

Lemma decimal_value_app acc (a b : pystr) :
  decimal_value acc (a ++ b) = decimal_value (decimal_value acc a) b.
Proof.
  revert acc. induction a as [|x a IH]; intros acc; [done|]. simpl. apply IH.
Qed.

Lemma pretty_N_char_digit (d : N) :
  (d < 10)%N →
  is_digit (chr (pretty_N_char d)) = true ∧
  digit_value (chr (pretty_N_char d)) = Z.of_N d.
Proof.
  intros Hd.
  assert (d = 0 ∨ d = 1 ∨ d = 2 ∨ d = 3 ∨ d = 4 ∨ d = 5 ∨ d = 6 ∨ d = 7
          ∨ d = 8 ∨ d = 9)%N as Hor by lia.
  repeat (destruct Hor as [->|Hor]; [by split|]).
  subst d. by split.
Qed.

Lemma pretty_N_go_app (x : N) (s : string) :
  pretty_N_go x s = pretty_N_go x "" +:+ s.
Proof.
  revert s. induction (N.lt_wf_0 x) as [x _ IH]. intros s.
  destruct (decide (x = 0)%N) as [->|Hx]; [by rewrite !pretty_N_go_0|].
  rewrite (pretty_N_go_step x s), (pretty_N_go_step x "") by lia.
  assert (Hdiv : (x `div` 10 < x)%N) by (apply N.div_lt; lia).
  set (c := pretty_N_char (x `mod` 10)).
  rewrite (IH _ Hdiv (String c s)), (IH _ Hdiv (String c "")).
  by rewrite append_assoc.
Qed.

Lemma pretty_N_go_literal (x : N) :
  forallb is_digit (ustr (pretty_N_go x "")) = true ∧
  decimal_value 0 (ustr (pretty_N_go x "")) = Z.of_N x.
Proof.
  induction (N.lt_wf_0 x) as [x _ IH].
  destruct (decide (x = 0)%N) as [->|Hx]; [by rewrite pretty_N_go_0|].
  rewrite pretty_N_go_step, pretty_N_go_app, ustr_app by lia.
  assert (Hdiv : (x `div` 10 < x)%N) by (apply N.div_lt; lia).
  destruct (IH _ Hdiv) as [Hds Hval].
  destruct (pretty_N_char_digit (x `mod` 10)) as [Hd Hv].
  { apply N.mod_lt. lia. }
  split.
  - rewrite forallb_app, Hds. simpl. by rewrite Hd.
  - rewrite decimal_value_app, Hval. simpl. rewrite Hv.
    rewrite N2Z.inj_mod, N2Z.inj_div.
    pose proof (Z.div_mod (Z.of_N x) 10). change (Z.of_N 10) with 10. lia.
Qed.

Lemma pretty_N_go_nonempty (x : N) : (0 < x)%N → ustr (pretty_N_go x "") ≠ [].
Proof.
  intros Hx. rewrite pretty_N_go_step, pretty_N_go_app, ustr_app by done.
  by destruct (ustr (pretty_N_go (x `div` 10) "")).
Qed.

Lemma pretty_positive_literal (p : positive) :
  ustr (pretty p) ≠ [] ∧ forallb is_digit (ustr (pretty p)) = true ∧
  decimal_value 0 (ustr (pretty p)) = Z.pos p.
Proof.
  unfold pretty, pretty_positive, pretty, pretty_N.
  destruct (decide (N.pos p = 0)%N); [done|].
  destruct (pretty_N_go_literal (N.pos p)) as [Hds Hval].
  split_and!; [by apply pretty_N_go_nonempty | done | done].
Qed.

(** [str(z)], as the model writes it, is an integer literal of value
    [z]. *)
Lemma int_literal_pretty (z : Z) : int_literal (ustr (pretty z)) z.
Proof.
  destruct z as [|p|p].
  - exact (int_literal_digits (ustr "0") ltac:(discriminate) eq_refl).
  - destruct (pretty_positive_literal p) as (Hne & Hds & Hval).
    change (int_literal (ustr (pretty p)) (Z.pos p)). rewrite <- Hval.
    by apply int_literal_digits.
  - destruct (pretty_positive_literal p) as (Hne & Hds & Hval).
    change (int_literal (chr "-" :: ustr (pretty p)) (- Z.pos p)).
    rewrite <- Hval. by apply int_literal_minus.
Qed.

(** *** [bboxFromIraf] *)

(** X10: every box is what [bboxFromIraf] returns for the decimal rendering
    of its corners moved by one: for all integers,
    ["[" + str(x0 + 1) + ":" + str(x1 + 1) + "," + str(y0 + 1) + ":" +
    str(y1 + 1) + "]"] gives the box of [(x0, y0)] and [(x1, y1)], also
    when the corners are negative or in the wrong order. *)
Theorem bboxFromIraf_round_trip (x0 y0 x1 y1 : Z) :
  bboxFromIraf
    (iraf_str (ustr (pretty (x0 + 1))) (ustr (pretty (x1 + 1)))
              (ustr (pretty (y0 + 1))) (ustr (pretty (y1 + 1))) []) =
    Ok (BoxI (PointI x0 y0) (PointI x1 y1)).
Proof.
  rewrite (bboxFromIraf_literals _ _ _ _ (x0 + 1) (x1 + 1) (y0 + 1) (y1 + 1));
    auto using int_literal_pretty.
  do 4 f_equal; lia.
Qed.

(** X11: what [bboxFromIraf] raises.  When the pattern does not match, it
    is [RuntimeError] with the message that quotes the argument.  When the
    pattern matches, it is the [ValueError] of [int()] for the first of the
    groups x0, x1, y0, y1 that is not an integer literal. *)
Theorem bboxFromIraf_errors (s : pystr) (e : exn) :
  bboxFromIraf s = Raise e →
  ((∀ gs, ¬ iraf_re s gs) ∧ e = RuntimeError (unable_to_parse s)) ∨
  (∃ g0 g1 g2 g3 pre g post,
      iraf_re s (g0, g1, g2, g3) ∧
      [g0; g1; g2; g3] = pre ++ g :: post ∧
      Forall (λ h, ∃ z, int_literal h z) pre ∧
      (∀ z, ¬ int_literal g z) ∧
      e = ValueError g).
Proof.
  unfold bboxFromIraf.
  destruct (iraf_search s) as [[[[g0 g1] g2] g3]|] eqn:Hs.
  - intros He. right. exists g0, g1, g2, g3.
    apply iraf_search_spec in Hs.
    assert (is_group g0 ∧ is_group g1 ∧ is_group g2 ∧ is_group g3)
      as (G0 & G1 & G2 & G3) by (by inversion Hs).
    destruct (int_of_str g0) as [x0|x] eqn:H0.
    2:{ simpl in He. simplify_eq.
        apply int_of_str_group_Raise in H0 as [-> Hno].
        by exists [], g0, [g1; g2; g3]. }
    apply (int_of_str_group _ _ G0) in H0.
    destruct (int_of_str g1) as [x1|x] eqn:H1.
    2:{ simpl in He. simplify_eq.
        apply int_of_str_group_Raise in H1 as [-> Hno].
        exists [g0], g1, [g2; g3]. split_and!; eauto. }
    apply (int_of_str_group _ _ G1) in H1.
    destruct (int_of_str g2) as [y0|x] eqn:H2.
    2:{ simpl in He. simplify_eq.
        apply int_of_str_group_Raise in H2 as [-> Hno].
        exists [g0; g1], g2, [g3]. split_and!; eauto. }
    apply (int_of_str_group _ _ G2) in H2.
    destruct (int_of_str g3) as [y1|x] eqn:H3; [done|].
    simpl in He. simplify_eq.
    apply int_of_str_group_Raise in H3 as [-> Hno].
    exists [g0; g1; g2], g3, []. split_and!; eauto 10.
  - intros ?; simplify_eq. left. split; [|done].
    intros gs Hgs%iraf_search_spec. congruence.
Qed.

(** X12: zeros before the digits of a group do not change the box. *)
Theorem bboxFromIraf_leading_zeros (d0 d1 d2 d3 : pystr) :
  is_group d0 → is_group d1 → is_group d2 → is_group d3 →
  forallb is_digit d0 = true → forallb is_digit d1 = true →
  forallb is_digit d2 = true → forallb is_digit d3 = true →
  bboxFromIraf
    (iraf_str (chr "0" :: d0) (chr "0" :: d1) (chr "0" :: d2) (chr "0" :: d3)
              []) =
    bboxFromIraf (iraf_str d0 d1 d2 d3 []).
Proof.
  intros [N0 _] [N1 _] [N2 _] [N3 _] D0 D1 D2 D3.
  assert (Hpad : ∀ ds, forallb is_digit ds = true →
            int_literal (chr "0" :: ds) (decimal_value 0 ds)).
  { intros ds Hds. by apply (int_literal_digits (chr "0" :: ds)). }
  rewrite (bboxFromIraf_literals _ _ _ _ _ _ _ _ [] (Hpad d0 D0) (Hpad d1 D1)
             (Hpad d2 D2) (Hpad d3 D3)) by (by left).
  rewrite (bboxFromIraf_literals d0 d1 d2 d3 (decimal_value 0 d0)
             (decimal_value 0 d1) (decimal_value 0 d2) (decimal_value 0 d3) []);
    [done | by apply int_literal_digits.. | by left].
Qed.

(** X13: the pattern matches a string in one way only: the string fixes
    its four groups. *)
Theorem iraf_re_unambiguous (s : pystr) gs gs' :
  iraf_re s gs → iraf_re s gs' → gs = gs'.
Proof.
  intros H1%iraf_search_spec H2%iraf_search_spec. congruence.
Qed.

(** X14: the constructor of [ExposureIdInfo] takes the decimal renderings
    of integers for the integers: given [str(e)] and [str(b)] it does what
    it does for [e] and [b]. *)
Theorem new_from_decimal_strings (e b : Z) (maxBits : option pyval) :
  ExposureIdInfo.new (Some (PyStr (ustr (pretty e))))
                     (Some (PyStr (ustr (pretty b)))) maxBits =
    ExposureIdInfo.new (Some (PyInt e)) (Some (PyInt b)) maxBits.
Proof.
  unfold ExposureIdInfo.new.
  generalize (default ExposureIdInfo.default_maxBits maxBits) as vm.
  intros vm. unfold ExposureIdInfo.__init__, bind, lift, default. simpl py_int.
  by rewrite !(int_of_str_literal _ _ (int_literal_pretty _)).
Qed.

End WithUnicode.

Section Witnesses.

#[local] Existing Instance sample_unicode.

Lemma bboxFromIraf_errors_witness :
  ((∀ gs, ¬ iraf_re (ustr "[1:2-,x:4]") gs) ∧
   RuntimeError (unable_to_parse (ustr "[1:2-,x:4]")) =
     RuntimeError (unable_to_parse (ustr "[1:2-,x:4]"))) ∨
  (∃ g0 g1 g2 g3 pre g post,
      iraf_re (ustr "[1:2-,x:4]") (g0, g1, g2, g3) ∧
      [g0; g1; g2; g3] = pre ++ g :: post ∧
      Forall (λ h, ∃ z, int_literal h z) pre ∧
      (∀ z, ¬ int_literal g z) ∧
      RuntimeError (unable_to_parse (ustr "[1:2-,x:4]")) = ValueError g).
Proof. apply (bboxFromIraf_errors (ustr "[1:2-,x:4]")). reflexivity. Defined.

Lemma bboxFromIraf_leading_zeros_witness :
  bboxFromIraf (ustr "[01:02,03:040]") = bboxFromIraf (ustr "[1:2,3:40]").
Proof.
  apply (bboxFromIraf_leading_zeros (ustr "1") (ustr "2") (ustr "3")
           (ustr "40"));
    solve [reflexivity | by split].
Defined.

Lemma iraf_re_unambiguous_witness :
  iraf_re (iraf_str (ustr "1") (ustr "2") (ustr "3") (ustr "4") newline)
          (ustr "1", ustr "2", ustr "3", ustr "4") ∧
  (ustr "1", ustr "2", ustr "3", ustr "4") =
    (ustr "1", ustr "2", ustr "3", ustr "4").
Proof.
  assert (Hre : iraf_re
                  (iraf_str (ustr "1") (ustr "2") (ustr "3") (ustr "4") newline)
                  (ustr "1", ustr "2", ustr "3", ustr "4")).
  { apply iraf_re_intro; solve [by split | by right]. }
  split; [exact Hre | exact (iraf_re_unambiguous _ _ _ Hre Hre)].
Defined.

End Witnesses.

End UtilsMore.
